(** * morrigan.providers.clients: client registry (server) and token agent (client)

    A shallow embedding of [server/server.js] (the client registry, its HTTP
    endpoint handlers and its connection message handlers) and of the agent
    side module (token persistence, [setup], the connect / disconnect hooks
    and the [token.issue] handler), with the properties checked against them.

    Conventions of the embedding.
    - An [async] function is one atomic step on an explicit state: the
      embedding is sequential and has no interleaving of two calls.
    - A JavaScript value that is "a string or undefined" is an
      [option string]; truthiness is written out ([truthy]).
    - A MongoDB collection is the list of its documents in insertion order;
      [findOne], [deleteOne] and [replaceOne] act on the first document that
      matches the filter, [insertOne] appends.  Commands take effect in the
      order they are issued (the [replaceOne] of [provisionClient] is issued
      without [await]).  The store-assigned [_id] is never read by the code
      and is left out.
    - The token generator ([@adicitus/jwtgenerator]) is an external package:
      it is a parameter of the registry ([TokenGenerator]). *)

From Stdlib Require Import ZArith String List Bool Lia.
From stdpp Require Import base option list gmap strings.
Import ListNotations.

Local Open Scope Z_scope.
Local Open Scope string_scope.

(** ** JavaScript values used by both sides *)

Module Js.

(** [if (s)] for a string: the empty string is falsy. *)
Definition truthy_str (s : string) : bool := negb (String.eqb s "").

(** [if (v)] for a value that is a string or [undefined] / [null]. *)
Definition truthy (v : option string) : bool :=
  match v with
  | Some s => truthy_str s
  | None => false
  end.

(** What a synchronous call, or the promise of an [async] one, ends in. *)
Inductive Error :=
| TypeError            (* property access on undefined / null, bad argument *)
| Failure (msg : string).   (* [throw new Error(msg)] *)

Inductive Completion (T : Type) :=
| Return (v : T)
| Throw (e : Error).
Arguments Return {T} v.
Arguments Throw {T} e.

End Js.

(** ** The server side: [server/server.js] *)

Module Server.
Import Js.

(** A document of the collection [morrigan.clients].  [cr_tokenId],
    [cr_updated] and [cr_state] are absent on a record until assigned. *)
Record ClientRecord := mkClient {
  cr_id : string;
  cr_created : Z;
  cr_tokenId : option string;
  cr_updated : option Z;
  cr_state : option string
}.

(** Modelled from the spec: the document type of [morrigan.clients.tokens],
    which the token generator owns; the registry reads [id] and [expires]. *)
Record TokenRecord := mkTokenRecord {
  tr_id : string;
  tr_subject : string;
  tr_expires : Z
}.

(** *** Collections *)

Section Collection.
Context {D : Type} (key : D -> string).

(** The filter [{ id: q }].  Every document carries a string [id], so a
    filter on [undefined] (sent as [null] by the driver) matches none. *)
Definition matches (q : option string) (d : D) : bool :=
  match q with
  | Some s => String.eqb (key d) s
  | None => false
  end.

Fixpoint findOne (q : option string) (c : list D) : option D :=
  match c with
  | [] => None
  | d :: c' => if matches q d then Some d else findOne q c'
  end.

Fixpoint deleteOne (q : option string) (c : list D) : list D :=
  match c with
  | [] => []
  | d :: c' => if matches q d then c' else d :: deleteOne q c'
  end.

Fixpoint replaceOne (q : option string) (r : D) (c : list D) : list D :=
  match c with
  | [] => []
  | d :: c' => if matches q d then r :: c' else d :: replaceOne q r c'
  end.

Definition insertOne (r : D) (c : list D) : list D := c ++ [r].

End Collection.

(** *** The token generator, as the registry uses it *)

(** [tokens.newToken(subject)] resolves to [{ token, record }]. *)
Record Minted := mkMinted {
  token : string;
  record : TokenRecord
}.

(** [tokens.verifyToken(token)] resolves to an object of which the registry
    reads [success], [subject], [status] and [reason]. *)
Record Verdict := mkVerdict {
  success : bool;
  subject : string;
  status : string;
  reason : string
}.

(** The generator is constructed on the collection [tokenRecords] only: it
    acts on its private state (signing keys) and on that collection, at the
    time of the call, and has no handle on [clientRecords]. *)
Record TokenGenerator (K : Type) := mkGenerator {
  newToken : string -> Z -> K * list TokenRecord ->
             Minted * (K * list TokenRecord);
  verifyToken_ : string -> Z -> K * list TokenRecord ->
                 Verdict * (K * list TokenRecord)
}.
Arguments newToken {K} _ _ _ _.
Arguments verifyToken_ {K} _ _ _ _.

(** *** Module state: the two collections, the generator and the clock *)

Record State (K : Type) := mkState {
  clientRecords : list ClientRecord;
  tokenRecords : list TokenRecord;
  keys : K;
  now : Z               (* what [DateTime.now()] reads *)
}.
Arguments mkState {K} _ _ _ _.
Arguments clientRecords {K} _.
Arguments tokenRecords {K} _.
Arguments keys {K} _.
Arguments now {K} _.

Section Registry.
Context {K : Type} (tokens : TokenGenerator K).

Definition set_clients (c : list ClientRecord) (st : State K) : State K :=
  mkState c (tokenRecords st) (keys st) (now st).

Definition set_tokens (t : list TokenRecord) (st : State K) : State K :=
  mkState (clientRecords st) t (keys st) (now st).

(** [await tokens.newToken(subject)] *)
Definition mint (subj : string) (st : State K) : Minted * State K :=
  let '(m, (k, t)) := newToken tokens subj (now st) (keys st, tokenRecords st) in
  (m, mkState (clientRecords st) t k (now st)).

(** [await tokens.verifyToken(token)] *)
Definition check (tok : string) (st : State K) : Verdict * State K :=
  let '(v, (k, t)) := verifyToken_ tokens tok (now st) (keys st, tokenRecords st) in
  (v, mkState (clientRecords st) t k (now st)).

(** [getClient]: [clientRecords.findOne({ id: clientId })]. *)
Definition getClient (clientId : option string) (st : State K)
  : option ClientRecord :=
  findOne cr_id clientId (clientRecords st).

(** [getClients]: [clientRecords.find().toArray()]. *)
Definition getClients (st : State K) : list ClientRecord :=
  clientRecords st.

(** [provisionClient(clientId)]: returns [t.token]. *)
Definition provisionClient (clientId : string) (st : State K)
  : string * State K :=
  let client := getClient (Some clientId) st in
  let '(rec0, st1) :=
    match client with
    | Some c => (c, st)
    | None =>
        let r := mkClient clientId (now st) None None None in
        (r, set_clients (insertOne r (clientRecords st)) st)
    end in
  let '(t, st2) := mint clientId st1 in
  let rec1 := mkClient (cr_id rec0) (cr_created rec0)
                       (Some (tr_id (record t))) (Some (now st2))
                       (cr_state rec0) in
  (token t,
   set_clients (replaceOne cr_id (Some (cr_id rec1)) rec1 (clientRecords st2)) st2).

(** [deprovisionClient(clientId)] *)
Definition deprovisionClient (clientId : option string) (st : State K)
  : bool * State K :=
  match getClient clientId st with
  | None => (false, st)
  | Some client =>
      let st1 :=
        set_clients (deleteOne cr_id (Some (cr_id client)) (clientRecords st)) st in
      let st2 :=
        if truthy (cr_tokenId client)
        then set_tokens (deleteOne tr_id (cr_tokenId client) (tokenRecords st1)) st1
        else st1 in
      (true, st2)
  end.

(** The object [verifyToken] resolves to. *)
Inductive Verification :=
| success_ (client : option ClientRecord)
    (* [{ state: 'success', client }]; [client] is [null] when absent *)
| authenticationfailed (status reason : string).

(** [verifyToken(token)] *)
Definition verifyToken (tok : string) (st : State K)
  : Verification * State K :=
  let '(r, st1) := check tok st in
  if success r
  then (success_ (getClient (Some (subject r)) st1), st1)
  else (authenticationfailed (status r) (reason r), st1).

(** *** Endpoint handlers *)

(** What a handler reads of the request: [req.params] (absent, or an object
    whose [clientId] may be missing), [req.body] (absent, or an object with
    the [id] the endpoint's schema requires) and [req.authenticated.name]. *)
Record Params := mkParams { clientId : option string }.
Record Body := mkBody { b_id : string }.
Record Request := mkRequest {
  params : option Params;
  body : option Body;
  authenticated : option string
}.

(** What is passed to [res.send]: a literal text or [JSON.stringify] of a
    token, of one record or of the list of records. *)
Inductive Payload :=
| text (s : string)
| json_token (t : string)
| json_client (c : ClientRecord)
| json_clients (l : list ClientRecord).

(** The calls a handler makes on [res], in order. *)
Inductive ResCall :=
| res_status (code : Z)
| res_send (p : Payload)
| res_end.

(** A handler run: the calls on [res], the error its promise rejects with
    (if any), and the state it leaves. *)
Record Handled := mkHandled {
  calls : list ResCall;
  rejected : option Error;
  after : State K
}.

(** [ep_provisionClient(req, res)] *)
Definition ep_provisionClient (req : Request) (st : State K) : Handled :=
  match body req, authenticated req with
  | Some details, Some _ =>
      let '(t, st') := provisionClient (b_id details) st in
      mkHandled [res_status 200; res_send (json_token t)] None st'
  | _, _ => mkHandled [] (Some TypeError) st
  end.

(** [ep_getClients(req, res)] *)
Definition ep_getClients (req : Request) (st : State K) : Handled :=
  let all := mkHandled [res_status 200; res_send (json_clients (getClients st))] None st in
  match params req with
  | Some p =>
      if truthy (clientId p) then
        match getClient (clientId p) st with
        | Some c => mkHandled [res_status 200; res_send (json_client c)] None st
        | None => mkHandled [res_status 204; res_end] None st
        end
      else all
  | None => all
  end.

(** The [.then] and [.catch] callbacks of [ep_deprovisionClient], by what the
    promise of [deprovisionClient] settles to. *)
Definition deprovisioned (o : Completion bool) : list ResCall :=
  match o with
  | Return true => [res_status 200; res_end]
  | Return false => [res_status 204; res_end]
  | Throw _ => [res_status 500; res_end]
  end.

(** [ep_deprovisionClient(req, res)].  The guard sends the 400 response and
    has no [return]: the call [deprovisionClient(req.params.clientId)] follows
    it in every case, and throws a [TypeError] when [req.params] is absent. *)
Definition ep_deprovisionClient (req : Request) (st : State K) : Handled :=
  let missing :=
    match params req with
    | None => true
    | Some p => negb (truthy (clientId p))
    end in
  let guard :=
    if missing
    then [res_status 400; res_send (text "No client ID provided.")]
    else [] in
  match params req with
  | None => mkHandled guard (Some TypeError) st
  | Some p =>
      let '(o, st') := deprovisionClient (clientId p) st in
      mkHandled (guard ++ deprovisioned (Return o)) None st'
  end.

(** *** Connection message handlers *)

(** What the server sends on a connection: [{ type: 'client.token.issue',
    token, expires }], [expires] being the instant [toISO()] prints. *)
Inductive ServerMessage :=
| client_token_issue (tok : string) (expires : Z).

(** [messages['token.refresh']]; [clientId] is [record.clientId] of the
    connection record.  Returns what was sent on the connection. *)
Definition token_refresh (clientId : string) (st : State K)
  : list ServerMessage * State K :=
  let '(r, st') := mint clientId st in
  ([client_token_issue (token r) (tr_expires (record r))], st').

(** [messages['state']]: the record is fetched and [state] is assigned on the
    fetched object; no command is sent to the collection.  Returns the
    fetched object as the handler leaves it, or the [TypeError] of assigning
    on [null]. *)
Definition state (msg_state : option string) (clientId : string) (st : State K)
  : Completion ClientRecord * State K :=
  match getClient (Some clientId) st with
  | Some client =>
      (Return (mkClient (cr_id client) (cr_created client) (cr_tokenId client)
                        (cr_updated client) msg_state), st)
  | None => (Throw TypeError, st)
  end.

End Registry.

(** [setup] constructs the generator with these lifetimes (milliseconds). *)
Definition tokenLifetime : Z := 30 * 24 * 3600 * 1000.
Definition keyLifetime : Z := 8 * 3600 * 1000.

End Server.

(** ** The agent side: token persistence and the refresh hooks *)

Module Agent.
Import Js.

(** A token or expiry held in memory: a string (from the command line, the
    settings or a message) or a [Buffer] ([fs.readFileSync] without an
    encoding).  A [Buffer] is an object, hence truthy even when empty. *)
Inductive Data :=
| Str (s : string)
| Buf (s : string).

Definition bytes (d : Data) : string :=
  match d with
  | Str s => s
  | Buf s => s
  end.

Definition truthy_data (v : option Data) : bool :=
  match v with
  | Some (Str s) => truthy_str s
  | Some (Buf _) => true
  | None => false
  end.

(** *** The file system: the files of the state directory and the token
    file named on the command line, by path.  Writes succeed. *)

Definition existsSync (p : option string) (fs : gmap string string) : bool :=
  match p with
  | Some p => bool_decide (is_Some (fs !! p))
  | None => false
  end.

Definition readFileSync (p : option string) (fs : gmap string string)
  : Completion string :=
  match p with
  | Some p =>
      match fs !! p with
      | Some content => Return content
      | None => Throw (Failure "ENOENT")
      end
  | None => Throw TypeError
  end.

(** [fs.writeFileSync(p, data)]: a [null] path or [undefined] data is
    refused with a [TypeError] before anything is written. *)
Definition writeFileSync (p : option string) (data : option Data)
    (fs : gmap string string) : Completion (gmap string string) :=
  match p, data with
  | Some p, Some d => Return (<[p := bytes d]> fs)
  | _, _ => Throw TypeError
  end.

(** *** Timers of the runtime *)

(** The object [setInterval] returns. *)
Inductive Handle :=
| Timeout (n : nat).

Inductive ClientMessage :=
| client_token_refresh.      (* [{ type: 'client.token.refresh' }] *)

(** The live interval timers (by handle number: the connection the callback
    sends on, and the period in milliseconds), the next handle number, and
    what has been sent, oldest first, by connection. *)
Record Runtime := mkRuntime {
  intervals : gmap nat (nat * Z);
  next : nat;
  sent : list (nat * ClientMessage)
}.

Definition send (connection : nat) (m : ClientMessage) (rt : Runtime) : Runtime :=
  mkRuntime (intervals rt) (next rt) (sent rt ++ [(connection, m)]).

(** [setInterval(() => connection.send(refresh), period)] *)
Definition setInterval (connection : nat) (period : Z) (rt : Runtime)
  : Handle * Runtime :=
  (Timeout (next rt),
   mkRuntime (<[next rt := (connection, period)]> (intervals rt))
             (S (next rt)) (sent rt)).

(** *** Module variables *)

Record Vars := mkVars {
  tokenPath : option string;
  tokenExpirationPath : option string;
  token : option Data;
  tokenExpires : option Data;
  tokenRefreshInterval : option Handle
}.

(** The module as loaded: [null], [null], [null], [null], [undefined]. *)
Definition loaded : Vars := mkVars None None None None None.

Definition set_token (t : option Data) (v : Vars) : Vars :=
  mkVars (tokenPath v) (tokenExpirationPath v) t (tokenExpires v)
         (tokenRefreshInterval v).

Definition set_tokenExpires (e : option Data) (v : Vars) : Vars :=
  mkVars (tokenPath v) (tokenExpirationPath v) (token v) e
         (tokenRefreshInterval v).

(** [loadToken()]: an assignment made before a read throws is kept. *)
Definition loadToken (v : Vars) (fs : gmap string string) : bool * Vars :=
  match readFileSync (tokenPath v) fs with
  | Throw _ => (false, v)
  | Return t =>
      let v1 := set_token (Some (Buf t)) v in
      if existsSync (tokenExpirationPath v1) fs then
        match readFileSync (tokenExpirationPath v1) fs with
        | Throw _ => (false, v1)
        | Return e => (true, set_tokenExpires (Some (Buf e)) v1)
        end
      else (true, v1)
  end.

(** [saveToken()]: the error thrown, if any, and the files as left. *)
Definition saveToken (v : Vars) (fs : gmap string string)
  : option Error * gmap string string :=
  match writeFileSync (tokenPath v) (token v) fs with
  | Throw e => (Some e, fs)
  | Return fs1 =>
      if truthy_data (tokenExpires v) then
        match writeFileSync (tokenExpirationPath v) (tokenExpires v) fs1 with
        | Throw e => (Some e, fs1)
        | Return fs2 => (None, fs2)
        end
      else (None, fs1)
  end.

(** [getToken()] *)
Definition getToken (v : Vars) : option Data := token v.

(** *** [setup(core)] *)

(** [core.args]: [force] by its truthiness, [token], [tokenFile]. *)
Record Args := mkArgs {
  force : bool;
  a_token : option string;
  tokenFile : option string
}.

Record Settings := mkSettings { s_token : option string }.

(** [core.args] may be absent: the module tests [core.args &&] before it
    reads [force]. *)
Record Core := mkCore {
  stateDir : string;
  args : option Args;
  settings : Settings
}.

(** [core.args && core.args.force && (core.args.token || core.args.tokenFile)] *)
Definition forced (core : Core) : bool :=
  match args core with
  | Some a => force a && (truthy (a_token a) || truthy (tokenFile a))
  | None => false
  end.

(** The credential the first branch of [setup] assigns to [token], or the
    error it throws: [core.args.token] is read without a test of
    [core.args]. *)
Definition acquire (core : Core) (fs : gmap string string) : Completion string :=
  match args core with
  | None => Throw TypeError
  | Some a =>
      if truthy (a_token a) then Return (default "" (a_token a))
      else if truthy (tokenFile a) && existsSync (tokenFile a) fs
      then readFileSync (tokenFile a) fs
      else if truthy (s_token (settings core))
      then Return (default "" (s_token (settings core)))
      else Throw (Failure "No token set provided.")
  end.

(** [setup(core)]: the error thrown (if any), the module variables and the
    files as left.  The messages written to the console are left out. *)
Definition setup (core : Core) (v : Vars) (fs : gmap string string)
  : option Error * Vars * gmap string string :=
  let v0 := mkVars (Some (stateDir core ++ "/token"))
                   (Some (stateDir core ++ "/token.expiration"))
                   (token v) (tokenExpires v) (tokenRefreshInterval v) in
  if negb (existsSync (tokenPath v0) fs) || forced core then
    match acquire core fs with
    | Throw e => (Some e, v0, fs)
    | Return t =>
        let v1 := set_token (Some (Str t)) v0 in
        let '(e, fs') := saveToken v1 fs in
        (e, v1, fs')
    end
  else
    let '(_, v1) := loadToken v0 fs in
    (None, v1, fs).

(** *** Connection hooks *)

Definition refreshPeriod : Z := 8 * 3600 * 1000.

(** [onConnect(connection)] *)
Definition onConnect (connection : nat) (v : Vars) (rt : Runtime)
  : Vars * Runtime :=
  let rt1 := send connection client_token_refresh rt in
  let '(h, rt2) := setInterval connection refreshPeriod rt1 in
  (mkVars (tokenPath v) (tokenExpirationPath v) (token v) (tokenExpires v) (Some h),
   rt2).

(** [onDisconnect()]: a timer object is truthy; the variable keeps it.  The
    handle is passed to the runtime's [clearImmediate], which the runtime
    documents for the objects of [setImmediate]; what it does with the
    [Timeout] of [setInterval] is not part of the module nor documented, so
    it is a parameter here. *)
Definition onDisconnect (clearImmediate : Handle -> Runtime -> Runtime)
    (v : Vars) (rt : Runtime) : Vars * Runtime :=
  match tokenRefreshInterval v with
  | Some h => (v, clearImmediate h rt)
  | None => (v, rt)
  end.

(** [messages['token.issue']]: [message.token] and [message.expires] as
    parsed from the message, each a string or missing. *)
Definition token_issue (m_token m_expires : option string) (v : Vars)
    (fs : gmap string string) : option Error * Vars * gmap string string :=
  let v1 := set_tokenExpires (Str <$> m_expires) (set_token (Str <$> m_token) v) in
  let '(e, fs') := saveToken v1 fs in
  (e, v1, fs').

End Agent.

(** ** A reference token generator *)

Module RefTokens.
Import Server.

(** The token generator is the [TokenGenerator] class of the external
    package [@adicitus/jwtgenerator], which is not among the sources.  The
    instance below follows the description of the Token Authority and of
    the token records:
    - it mints a signed token for a subject and keeps a token record ([id],
      [subject], [expires]) in its collection;
    - a client has at most one live token at any time: minting a token for
      a subject invalidates the subject's earlier tokens;
    - removing a token record invalidates the token; token records are
      removed on deprovisioning, a mint removes none;
    - a token is rejected once it has expired. *)

(** The id of the [n]-th token: ["t"], ["t'"], ["t''"], ... *)
Fixpoint serial (n : nat) : string :=
  match n with
  | O => "t"
  | S n' => serial n' ++ "'"
  end.

(** The signed form of the token with id [i]. *)
Definition signed (i : string) : string := "jwt:" ++ i.

(** Modelled from the spec: [newToken] of the token generator.  The private
    state is the serial number of the next token and, by subject, the id of
    the subject's live token; the record expires [tokenLifetime] after the
    mint and is appended to the collection. *)
Definition ref_newToken (subj : string) (now : Z)
    (s : (nat * gmap string string) * list TokenRecord)
  : Minted * ((nat * gmap string string) * list TokenRecord) :=
  let r := mkTokenRecord (serial (fst (fst s))) subj (now + tokenLifetime) in
  (mkMinted (signed (tr_id r)) r,
   ((S (fst (fst s)), <[subj := tr_id r]> (snd (fst s))), insertOne r (snd s))).

(** Modelled from the spec: [verifyToken] of the token generator.  A token is
    accepted, for the subject of its record, while the record is stored, is
    the live token of its subject and has not expired. *)
Definition ref_verifyToken (tok : string) (now : Z)
    (s : (nat * gmap string string) * list TokenRecord)
  : Verdict * ((nat * gmap string string) * list TokenRecord) :=
  match List.find (fun r => String.eqb (signed (tr_id r)) tok) (snd s) with
  | Some r =>
      if bool_decide (snd (fst s) !! tr_subject r = Some (tr_id r)) then
        if Z.leb now (tr_expires r)
        then (mkVerdict true (tr_subject r) "ok" "", s)
        else (mkVerdict false "" "expired" "token has expired", s)
      else (mkVerdict false "" "superseded" "token was replaced", s)
  | None => (mkVerdict false "" "invalid" "unknown token", s)
  end.

Definition generator : TokenGenerator (nat * gmap string string) :=
  mkGenerator (nat * gmap string string) ref_newToken ref_verifyToken.

(** The server as [setup] leaves it on an empty database, at time [0]. *)
Definition fresh : State (nat * gmap string string) := mkState [] [] (O, ∅) 0.

(** A run: ["agent-42"] is provisioned, asks for a refresh over its
    connection, and is then deprovisioned. *)
Definition provisioned : State (nat * gmap string string) :=
  snd (provisionClient generator "agent-42" fresh).

Definition refreshed : State (nat * gmap string string) :=
  snd (token_refresh generator "agent-42" provisioned).

Definition orphaned : State (nat * gmap string string) :=
  snd (deprovisionClient (Some "agent-42") refreshed).

(** Another run: ["agent-42"] is provisioned twice. *)
Definition reprovisioned : State (nat * gmap string string) :=
  snd (provisionClient generator "agent-42" provisioned).

End RefTokens.

(** * The cold-start policy of the agent, in the words of the design *)

Module AgentPolicy.
Import Js Agent.

(** A value counts as supplied when it is set and not empty. *)
Definition supplied (v : option string) : option string :=
  if truthy v then v else None.

(** The sources in priority order: the raw token of the command line, the
    content of the token file named there (when that file exists), the
    fallback token of the settings. *)
Definition sources (a : Args) (s : Settings) (fs : gmap string string)
  : list (option string) :=
  [ supplied (a_token a);
    match supplied (tokenFile a) with
    | Some p => fs !! p
    | None => None
    end;
    supplied (s_token s) ].

Fixpoint first_available (l : list (option string)) : option string :=
  match l with
  | nil => None
  | Some t :: _ => Some t
  | None :: l' => first_available l'
  end.

(** The files after [saveToken] wrote token [t], and the expiry held in
    memory when it is truthy. *)
Definition persisted (p ep t : string) (e : option Data)
    (fs : gmap string string) : gmap string string :=
  match e with
  | Some d => if truthy_data e then <[ep := bytes d]> (<[p := t]> fs)
              else <[p := t]> fs
  | None => <[p := t]> fs
  end.

End AgentPolicy.

(** * Properties of the server side *)

Module ServerFacts.
Import Js Server.
Local Open Scope list_scope.

(** ** Collections *)

(** [c'] is [c] without its first document whose key is [s]. *)
Definition removed_first {D : Type} (key : D -> string) (s : string)
    (c c' : list D) : Prop :=
  exists l1 d l2,
    c = l1 ++ d :: l2 /\ key d = s /\
    Forall (fun x => key x <> s) l1 /\ c' = l1 ++ l2.

(** No two client records share an [id]. *)
Definition unique_ids {K : Type} (st : State K) : Prop :=
  NoDup (map cr_id (clientRecords st)).

(** ** What is asked of a token generator in some statements *)

(** The generator accepts [tok] for [subj] on its state [s] at time [t]. *)
Definition accepts {K : Type} (tokens : TokenGenerator K) (tok subj : string)
    (t : Z) (s : K * list TokenRecord) : Prop :=
  success (fst (verifyToken_ tokens tok t s)) = true /\
  subject (fst (verifyToken_ tokens tok t s)) = subj.

(** The record [provisionClient] leaves for [c]: [created] and [state] of the
    record found, or [created] now; [tokenId] of the minted token. *)
Definition provisioned_record (c : string) (old : option ClientRecord)
    (tid : string) (t : Z) : ClientRecord :=
  match old with
  | Some o => mkClient c (cr_created o) (Some tid) (Some t) (cr_state o)
  | None => mkClient c t (Some tid) (Some t) None
  end.

Section CollectionFacts.
Context {D : Type} (key : D -> string).

Lemma matches_Some s d : matches key (Some s) d = true <-> key d = s.
Proof. unfold matches. apply String.eqb_eq. Qed.

Lemma matches_Some_false s d : matches key (Some s) d = false <-> key d <> s.
Proof. unfold matches. apply String.eqb_neq. Qed.

Lemma findOne_undefined c : findOne key None c = None.
Proof. induction c as [|d c IH]; cbn [findOne deleteOne replaceOne map app In]; auto. Qed.

Lemma findOne_Some_inv q c d :
  findOne key q c = Some d ->
  exists l1 l2, c = l1 ++ d :: l2 /\ matches key q d = true /\
                Forall (fun x => matches key q x = false) l1.
Proof.
  induction c as [|x c IH]; cbn [findOne deleteOne replaceOne map app In]; [discriminate|].
  destruct (matches key q x) eqn:E.
  - intros [= ->]. exists [], c. auto.
  - intros H. destruct (IH H) as (l1 & l2 & -> & Hm & Hl).
    exists (x :: l1), l2. auto.
Qed.

Lemma findOne_None_iff q c :
  findOne key q c = None <-> Forall (fun x => matches key q x = false) c.
Proof.
  induction c as [|x c IH]; cbn [findOne deleteOne replaceOne map app In].
  - split; auto.
  - destruct (matches key q x) eqn:E.
    + split; [discriminate|]. intros H. inversion H; congruence.
    + rewrite IH. split; [auto|]. intros H. inversion H; auto.
Qed.

Lemma findOne_prefix q l1 d l2 :
  Forall (fun x => matches key q x = false) l1 -> matches key q d = true ->
  findOne key q (l1 ++ d :: l2) = Some d.
Proof.
  induction 1 as [|x l1 Hx _ IH]; cbn [findOne deleteOne replaceOne map app In]; intros Hd.
  - now rewrite Hd.
  - rewrite Hx. auto.
Qed.

Lemma deleteOne_prefix q l1 d l2 :
  Forall (fun x => matches key q x = false) l1 -> matches key q d = true ->
  deleteOne key q (l1 ++ d :: l2) = l1 ++ l2.
Proof.
  induction 1 as [|x l1 Hx _ IH]; cbn [findOne deleteOne replaceOne map app In]; intros Hd.
  - now rewrite Hd.
  - rewrite Hx. f_equal. auto.
Qed.

Lemma replaceOne_prefix q r l1 d l2 :
  Forall (fun x => matches key q x = false) l1 -> matches key q d = true ->
  replaceOne key q r (l1 ++ d :: l2) = l1 ++ r :: l2.
Proof.
  induction 1 as [|x l1 Hx _ IH]; cbn [findOne deleteOne replaceOne map app In]; intros Hd.
  - now rewrite Hd.
  - rewrite Hx. f_equal. auto.
Qed.

Lemma deleteOne_absent q c : findOne key q c = None -> deleteOne key q c = c.
Proof.
  induction c as [|x c IH]; cbn [findOne deleteOne replaceOne map app In]; auto.
  destruct (matches key q x); [discriminate|]. intros H. f_equal. auto.
Qed.

Lemma replaceOne_absent q r c : findOne key q c = None -> replaceOne key q r c = c.
Proof.
  induction c as [|x c IH]; cbn [findOne deleteOne replaceOne map app In]; auto.
  destruct (matches key q x); [discriminate|]. intros H. f_equal. auto.
Qed.

Lemma findOne_app q c1 c2 :
  findOne key q (c1 ++ c2) =
  match findOne key q c1 with
  | Some d => Some d
  | None => findOne key q c2
  end.
Proof.
  induction c1 as [|x c1 IH]; cbn [findOne deleteOne replaceOne map app In]; auto.
  destruct (matches key q x); auto.
Qed.

Lemma deleteOne_removed s c d :
  findOne key (Some s) c = Some d ->
  removed_first key s c (deleteOne key (Some s) c).
Proof.
  intros H. destruct (findOne_Some_inv _ _ _ H) as (l1 & l2 & -> & Hm & Hl).
  exists l1, d, l2. repeat split.
  - now apply matches_Some.
  - eapply Forall_impl; [exact Hl|]. intros x. apply matches_Some_false.
  - now apply deleteOne_prefix.
Qed.

(** Documents under another key are found as before. *)
Lemma findOne_deleteOne_other s s' c :
  s <> s' -> findOne key (Some s') (deleteOne key (Some s) c) = findOne key (Some s') c.
Proof.
  intros Hne. induction c as [|x c IH]; cbn [findOne deleteOne replaceOne map app In]; auto.
  destruct (matches key (Some s) x) eqn:E; cbn [findOne deleteOne replaceOne map app In].
  - apply matches_Some in E.
    destruct (matches key (Some s') x) eqn:E'; auto.
    apply matches_Some in E'. congruence.
  - destruct (matches key (Some s') x); auto.
Qed.

Lemma findOne_replaceOne_other s s' r c :
  s <> s' -> key r = s ->
  findOne key (Some s') (replaceOne key (Some s) r c) = findOne key (Some s') c.
Proof.
  intros Hne Hr. induction c as [|x c IH]; cbn [findOne deleteOne replaceOne map app In]; auto.
  destruct (matches key (Some s) x) eqn:E; cbn [findOne deleteOne replaceOne map app In].
  - apply matches_Some in E.
    destruct (matches key (Some s') r) eqn:E1; [apply matches_Some in E1; congruence|].
    destruct (matches key (Some s') x) eqn:E2; [apply matches_Some in E2; congruence|].
    reflexivity.
  - destruct (matches key (Some s') x); auto.
Qed.

Lemma findOne_replaceOne_same s r c d :
  key r = s -> findOne key (Some s) c = Some d ->
  findOne key (Some s) (replaceOne key (Some s) r c) = Some r.
Proof.
  intros Hr H. destruct (findOne_Some_inv _ _ _ H) as (l1 & l2 & -> & Hm & Hl).
  rewrite replaceOne_prefix by assumption.
  apply findOne_prefix; [assumption|]. now apply matches_Some.
Qed.

Lemma map_key_replaceOne s r c :
  key r = s -> map key (replaceOne key (Some s) r c) = map key c.
Proof.
  intros Hr. induction c as [|x c IH]; cbn [findOne deleteOne replaceOne map app In]; auto.
  destruct (matches key (Some s) x) eqn:E; cbn [findOne deleteOne replaceOne map app In].
  - apply matches_Some in E. congruence.
  - now rewrite IH.
Qed.

Lemma findOne_None_not_in s c :
  findOne key (Some s) c = None <-> ~ In s (map key c).
Proof.
  rewrite findOne_None_iff. induction c as [|x c IH]; cbn [findOne deleteOne replaceOne map app In].
  - split; auto.
  - split.
    + intros H [Hx|Hin]; inversion H; subst.
      * apply matches_Some_false in H2. congruence.
      * apply IH in H3. auto.
    + intros H. constructor.
      * apply matches_Some_false. intros E. apply H. auto.
      * apply IH. intros Hin. apply H. auto.
Qed.

Lemma deleteOne_incl q c x : In x (deleteOne key q c) -> In x c.
Proof.
  induction c as [|y c IH]; cbn [findOne deleteOne replaceOne map app In]; auto.
  destruct (matches key q y); cbn [findOne deleteOne replaceOne map app In]; intuition.
Qed.

Lemma NoDup_deleteOne q c :
  NoDup (map key c) -> NoDup (map key (deleteOne key q c)).
Proof.
  induction c as [|y c IH]; cbn [findOne deleteOne replaceOne map app In]; auto.
  intros H. inversion H as [|? ? Hn Hd]; subst.
  destruct (matches key q y); cbn [findOne deleteOne replaceOne map app In]; auto.
  constructor; auto.
  intros Hin. apply Hn. apply list_elem_of_In. apply list_elem_of_In in Hin.
  apply in_map_iff in Hin as (z & Hz & Hin).
  apply in_map_iff. exists z. split; auto. eapply deleteOne_incl; eauto.
Qed.

Lemma findOne_deleteOne_same s c :
  NoDup (map key c) -> findOne key (Some s) (deleteOne key (Some s) c) = None.
Proof.
  induction c as [|y c IH]; cbn [findOne deleteOne replaceOne map app In]; auto.
  intros H. inversion H as [|? ? Hn Hd]; subst.
  destruct (matches key (Some s) y) eqn:E; cbn [findOne deleteOne replaceOne map app In].
  - apply matches_Some in E. subst. apply findOne_None_not_in.
    now rewrite <- list_elem_of_In.
  - rewrite E. auto.
Qed.

End CollectionFacts.

(** ** The registry *)

Section RegistryFacts.
Context {K : Type} (tokens : TokenGenerator K).

Lemma mint_eq c (st : State K) :
  mint tokens c st =
  let m := newToken tokens c (now st) (keys st, tokenRecords st) in
  (fst m, mkState (clientRecords st) (snd (snd m)) (fst (snd m)) (now st)).
Proof.
  unfold mint. destruct (newToken tokens c (now st) (keys st, tokenRecords st))
    as [m [k t]]. reflexivity.
Qed.

Lemma check_eq tok (st : State K) :
  check tokens tok st =
  let v := verifyToken_ tokens tok (now st) (keys st, tokenRecords st) in
  (fst v, mkState (clientRecords st) (snd (snd v)) (fst (snd v)) (now st)).
Proof.
  unfold check. destruct (verifyToken_ tokens tok (now st) (keys st, tokenRecords st))
    as [v [k t]]. reflexivity.
Qed.

Lemma getClient_Some_id q (st : State K) r :
  getClient q st = Some r -> q = Some (cr_id r).
Proof.
  unfold getClient. intros H.
  destruct (findOne_Some_inv _ _ _ _ H) as (l1 & l2 & _ & Hm & _).
  destruct q as [s|]; [|discriminate].
  apply matches_Some in Hm. congruence.
Qed.

(** [provisionClient] in closed form. *)
Lemma provisionClient_eq c (st : State K) :
  provisionClient tokens c st =
  let m := newToken tokens c (now st) (keys st, tokenRecords st) in
  let old := getClient (Some c) st in
  let r := provisioned_record c old (tr_id (record (fst m))) (now st) in
  (token (fst m),
   mkState (match old with
            | Some _ => replaceOne cr_id (Some c) r (clientRecords st)
            | None => clientRecords st ++ [r]
            end)
           (snd (snd m)) (fst (snd m)) (now st)).
Proof.
  unfold provisionClient. cbv zeta.
  destruct (getClient (Some c) st) as [old|] eqn:Hold.
  - rewrite mint_eq. cbv zeta. cbn [fst snd].
    pose proof (getClient_Some_id _ _ _ Hold) as [= Hid].
    unfold set_clients. cbn [cr_id clientRecords tokenRecords keys now provisioned_record].
    rewrite <- Hid. reflexivity.
  - rewrite mint_eq. cbv zeta. cbn [fst snd].
    unfold set_clients, insertOne.
    cbn [cr_id cr_created cr_state clientRecords tokenRecords keys now provisioned_record].
    f_equal. f_equal.
    apply (replaceOne_prefix cr_id (Some c) _ (clientRecords st)
             (mkClient c (now st) None None None) []).
    + now apply findOne_None_iff.
    + now apply matches_Some.
Qed.

Lemma getClient_mint q c (st : State K) :
  getClient q (snd (mint tokens c st)) = getClient q st.
Proof. rewrite mint_eq. reflexivity. Qed.

Lemma getClient_check q tok (st : State K) :
  getClient q (snd (check tokens tok st)) = getClient q st.
Proof. rewrite check_eq. reflexivity. Qed.

(** After [provisionClient(c)], [getClient(c)] finds the provisioned record. *)
Lemma getClient_provisionClient c (st : State K) :
  getClient (Some c) (snd (provisionClient tokens c st)) =
  Some (provisioned_record c (getClient (Some c) st)
          (tr_id (record (fst (newToken tokens c (now st) (keys st, tokenRecords st)))))
          (now st)).
Proof.
  rewrite provisionClient_eq. cbv zeta. cbn [snd]. unfold getClient at 1.
  cbn [clientRecords].
  destruct (getClient (Some c) st) as [old|] eqn:Hold.
  - eapply findOne_replaceOne_same; [reflexivity | exact Hold].
  - rewrite findOne_app. unfold getClient in Hold. rewrite Hold.
    cbn [findOne provisioned_record].
    assert (matches cr_id (Some c)
              (mkClient c (now st) (Some (tr_id (record (fst (newToken tokens c
                 (now st) (keys st, tokenRecords st)))))) (Some (now st)) None) = true) as ->
      by now apply matches_Some.
    reflexivity.
Qed.

(** C1 (evaluated): when the generator accepts the token and the registry
    holds no record for its subject, [verifyToken] does not report a failure:
    it resolves to [{ state: 'success', client: null }].  The result of
    [getClient] is not tested, as it is in [deprovisionClient] and
    [ep_getClients]. *)
Theorem verifyToken_success_without_client tok (st : State K) :
  success (fst (check tokens tok st)) = true ->
  getClient (Some (subject (fst (check tokens tok st)))) st = None ->
  fst (verifyToken tokens tok st) = success_ None.
Proof.
  intros Hs Hc. unfold verifyToken.
  destruct (check tokens tok st) as [r st1] eqn:E. cbn [fst] in *.
  rewrite Hs. cbn [fst]. f_equal.
  replace st1 with (snd (check tokens tok st)) by now rewrite E.
  now rewrite getClient_check.
Qed.

(** C3 (evaluated): the [token.refresh] handler mints a token and sends one
    [client.token.issue] message carrying it and its expiry, and sends no
    command to [clientRecords]: every client record is as before, so
    [tokenId] still names the earlier token.  The write-back that
    [provisionClient] makes after the same mint is missing. *)
Theorem token_refresh_leaves_registry c (st : State K) :
  fst (token_refresh tokens c st) =
    [client_token_issue (token (fst (mint tokens c st)))
                        (tr_expires (record (fst (mint tokens c st))))] /\
  clientRecords (snd (token_refresh tokens c st)) = clientRecords st /\
  forall q, getClient q (snd (token_refresh tokens c st)) = getClient q st.
Proof.
  unfold token_refresh. destruct (mint tokens c st) as [r st'] eqn:E.
  cbn [fst snd].
  assert (clientRecords st' = clientRecords st) as Hc.
  { replace st' with (snd (mint tokens c st)) by now rewrite E.
    rewrite mint_eq. reflexivity. }
  repeat split; auto. intros q. unfold getClient. now rewrite Hc.
Qed.

(** C5: [deprovisionClient(c)] returns [false] and leaves the state as it
    was when no client record has id [c]; otherwise it returns [true], the
    first (under [unique_ids]: the) client record with id [c] is gone from
    [clientRecords], and, when that record's [tokenId] is set (truthy), the
    token record it names is gone from [tokenRecords]. *)
Theorem deprovisionClient_spec q (st : State K) :
  match getClient q st with
  | None => deprovisionClient q st = (false, st)
  | Some client =>
      let st' := snd (deprovisionClient q st) in
      q = Some (cr_id client) /\
      fst (deprovisionClient q st) = true /\
      removed_first cr_id (cr_id client) (clientRecords st) (clientRecords st') /\
      match cr_tokenId client with
      | Some tid =>
          if truthy_str tid then
            match findOne tr_id (Some tid) (tokenRecords st) with
            | Some _ => removed_first tr_id tid (tokenRecords st) (tokenRecords st')
            | None => tokenRecords st' = tokenRecords st
            end
          else tokenRecords st' = tokenRecords st
      | None => tokenRecords st' = tokenRecords st
      end /\
      keys st' = keys st /\ now st' = now st
  end.
Proof.
  unfold deprovisionClient.
  destruct (getClient q st) as [client|] eqn:Hc; [|reflexivity].
  cbv zeta. cbn [fst snd].
  pose proof (getClient_Some_id _ _ _ Hc) as Hq. subst q.
  split; [reflexivity|]. split; [reflexivity|].
  destruct (cr_tokenId client) as [tid|] eqn:Ht; cbn [truthy].
  - destruct (truthy_str tid) eqn:Htr;
      cbn [clientRecords tokenRecords keys now set_clients set_tokens].
    + split; [now apply deleteOne_removed with (d := client)|].
      split; [|split; reflexivity].
      destruct (findOne tr_id (Some tid) (tokenRecords st)) as [r|] eqn:Hf.
      * now apply deleteOne_removed with (d := r).
      * now apply deleteOne_absent.
    + split; [now apply deleteOne_removed with (d := client)|].
      repeat split; reflexivity.
  - cbn [clientRecords tokenRecords keys now set_clients set_tokens].
    split; [now apply deleteOne_removed with (d := client)|].
    repeat split; reflexivity.
Qed.

(** C8 (evaluated): a deprovision request whose parameters carry no client
    identity gets the 400 response, and the handler then goes on to call
    [deprovisionClient] on the missing identity and to answer a second time
    (204 on the response already sent). *)
Theorem ep_deprovisionClient_missing_id_proceeds b a (st : State K) :
  let h := ep_deprovisionClient (mkRequest (Some (mkParams None)) b a) st in
  calls h =
    [res_status 400; res_send (text "No client ID provided.")] ++
    deprovisioned (Return (fst (deprovisionClient None st))) /\
  calls h =
    [res_status 400; res_send (text "No client ID provided.");
     res_status 204; res_end] /\
  rejected h = None /\ after h = st.
Proof.
  unfold ep_deprovisionClient, deprovisionClient, getClient.
  cbn [params clientId truthy negb].
  rewrite findOne_undefined. cbn. auto.
Qed.

(** C9 (evaluated): the [state] handler sends no command to the collection:
    the state is as before, so [getClient] observes the record as it was,
    without the reported [state] and with [updated] unchanged. *)
Theorem state_message_not_recorded s c (st : State K) :
  snd (state s c st) = st /\
  forall q, getClient q (snd (state s c st)) = getClient q st.
Proof.
  unfold state. destruct (getClient (Some c) st); cbn [snd]; auto.
Qed.

End RegistryFacts.

(** ** Runs on the reference generator *)

(** C1, at a concrete run: ["agent-42"] is provisioned, refreshes its token
    and is deprovisioned; the refreshed token is accepted by the generator,
    its subject has no client record, and [verifyToken] does not report an
    authentication failure. *)
Lemma verifyToken_succeeds_after_deprovision :
  let v := fst (check RefTokens.generator "jwt:t'" RefTokens.orphaned) in
  success v = true /\
  getClient (Some (subject v)) RefTokens.orphaned = None /\
  ~ exists st re,
      fst (verifyToken RefTokens.generator "jwt:t'" RefTokens.orphaned) =
      authenticationfailed st re.
Proof.
  cbv zeta. split; [reflexivity|]. split; [reflexivity|].
  intros (st & re & H). vm_compute in H. discriminate H.
Qed.

Lemma verifyToken_success_without_client_witness :
  fst (verifyToken RefTokens.generator "jwt:t'" RefTokens.orphaned) = success_ None.
Proof.
  apply (verifyToken_success_without_client RefTokens.generator "jwt:t'"
           RefTokens.orphaned); reflexivity.
Defined.

(** C3, at a concrete run: after ["agent-42"] is provisioned and its
    [token.refresh] is handled, the record's [tokenId] is not the id of the
    token the handler minted. *)
Lemma token_refresh_tokenId_stale :
  let minted := fst (mint RefTokens.generator "agent-42" RefTokens.provisioned) in
  exists r,
    getClient (Some "agent-42")
      (snd (token_refresh RefTokens.generator "agent-42" RefTokens.provisioned)) = Some r /\
    cr_tokenId r = Some "t" /\
    tr_id (record minted) = "t'" /\
    cr_tokenId r <> Some (tr_id (record minted)).
Proof.
  cbv zeta. eexists. split; [reflexivity|]. split; [reflexivity|].
  split; [reflexivity|]. vm_compute. discriminate.
Qed.

(** ** The registry on the reference generator *)










(** ** Further properties of the registry *)

Section RegistryMore.
Context {K : Type} (tokens : TokenGenerator K).

Lemma ids_provisionClient c (st : State K) :
  map cr_id (clientRecords (snd (provisionClient tokens c st))) =
  match getClient (Some c) st with
  | Some _ => map cr_id (clientRecords st)
  | None => map cr_id (clientRecords st) ++ [c]
  end.
Proof.
  rewrite provisionClient_eq. cbv zeta. cbn [snd clientRecords].
  destruct (getClient (Some c) st) as [old|] eqn:Hold.
  - apply map_key_replaceOne. reflexivity.
  - rewrite map_app. reflexivity.
Qed.

Lemma getClient_provisionClient_record c (st : State K) :
  let m := fst (mint tokens c st) in
  fst (provisionClient tokens c st) = token m /\
  exists r,
    getClient (Some c) (snd (provisionClient tokens c st)) = Some r /\
    cr_id r = c /\
    cr_tokenId r = Some (tr_id (record m)) /\
    cr_updated r = Some (now st) /\
    cr_created r = match getClient (Some c) st with
                   | Some old => cr_created old
                   | None => now st
                   end /\
    cr_state r = match getClient (Some c) st with
                 | Some old => cr_state old
                 | None => None
                 end.
Proof.
  cbv zeta. rewrite mint_eq. cbv zeta. cbn [fst]. split.
  - now rewrite provisionClient_eq.
  - eexists. split; [apply getClient_provisionClient|].
    destruct (getClient (Some c) st); cbn; auto.
Qed.

(** X1. After [provisionClient(c)], [getClient(c)] finds a record with id
    [c] whose [tokenId] is the id of the token just minted and whose
    [updated] is now; [created] and [state] are those of the record found
    before, or [created] is now for a new client.  The call returns the
    minted token. *)
Theorem provisionClient_then_getClient c (st : State K) :
  let m := fst (mint tokens c st) in
  fst (provisionClient tokens c st) = token m /\
  exists r,
    getClient (Some c) (snd (provisionClient tokens c st)) = Some r /\
    cr_id r = c /\
    cr_tokenId r = Some (tr_id (record m)) /\
    cr_updated r = Some (now st) /\
    cr_created r = match getClient (Some c) st with
                   | Some old => cr_created old
                   | None => now st
                   end /\
    cr_state r = match getClient (Some c) st with
                 | Some old => cr_state old
                 | None => None
                 end.
Proof.
  cbv zeta. rewrite mint_eq. cbv zeta. cbn [fst]. split.
  - now rewrite provisionClient_eq.
  - eexists. split; [apply getClient_provisionClient|].
    destruct (getClient (Some c) st); cbn; auto.
Qed.

(** X2. [provisionClient(c)] leaves the record of every other client as
    [getClient] finds it. *)
Theorem provisionClient_other_clients c c' (st : State K) :
  c <> c' ->
  getClient (Some c') (snd (provisionClient tokens c st)) = getClient (Some c') st.
Proof.
  intros Hne. rewrite provisionClient_eq. cbv zeta. cbn [snd].
  unfold getClient at 1. cbn [clientRecords].
  destruct (getClient (Some c) st) as [old|] eqn:Hold.
  - apply findOne_replaceOne_other; [assumption|].
    reflexivity.
  - rewrite findOne_app. unfold getClient.
    destruct (findOne cr_id (Some c') (clientRecords st)); [reflexivity|].
    cbn [findOne provisioned_record].
    match goal with |- (if ?b then _ else _) = _ => destruct b eqn:E end;
      [|reflexivity].
    apply matches_Some in E. cbn in E. congruence.
Qed.

(** X3. [provisionClient] keeps the ids of the client records distinct. *)
Theorem provisionClient_unique_ids c (st : State K) :
  unique_ids st -> unique_ids (snd (provisionClient tokens c st)).
Proof.
  unfold unique_ids. intros Hu. rewrite ids_provisionClient.
  destruct (getClient (Some c) st) eqn:Hc; [assumption|].
  apply NoDup_app. split; [assumption|]. split.
  - intros x Hx Hin. apply list_elem_of_In in Hx.
    apply list_elem_of_singleton in Hin. subst x.
    unfold getClient in Hc. apply findOne_None_not_in in Hc. contradiction.
  - apply NoDup_singleton.
Qed.

Lemma getClient_deprovisionClient c (st : State K) :
  unique_ids st ->
  getClient (Some c) (snd (deprovisionClient (Some c) st)) = None.
Proof.
  unfold unique_ids. intros Hu. unfold deprovisionClient.
  destruct (getClient (Some c) st) as [client|] eqn:Hc; [|exact Hc].
  pose proof (getClient_Some_id _ _ _ Hc) as [= Hid].
  cbn [snd]. rewrite <- Hid.
  destruct (truthy (cr_tokenId client)); unfold getClient; cbn;
    now apply findOne_deleteOne_same.
Qed.

(** X4. With distinct ids, [getClient(c)] finds nothing after
    [deprovisionClient(c)]. *)
Theorem deprovisionClient_then_getClient c (st : State K) :
  unique_ids st ->
  getClient (Some c) (snd (deprovisionClient (Some c) st)) = None.
Proof.
  unfold unique_ids. intros Hu. unfold deprovisionClient.
  destruct (getClient (Some c) st) as [client|] eqn:Hc; [|exact Hc].
  pose proof (getClient_Some_id _ _ _ Hc) as [= Hid].
  cbn [snd]. rewrite <- Hid.
  destruct (truthy (cr_tokenId client)); unfold getClient; cbn;
    now apply findOne_deleteOne_same.
Qed.

(** X5. [deprovisionClient(c)] leaves the record of every other client as
    [getClient] finds it. *)
Theorem deprovisionClient_other_clients c c' (st : State K) :
  c <> c' ->
  getClient (Some c') (snd (deprovisionClient (Some c) st)) = getClient (Some c') st.
Proof.
  intros Hne. unfold deprovisionClient.
  destruct (getClient (Some c) st) as [client|] eqn:Hc; [|reflexivity].
  pose proof (getClient_Some_id _ _ _ Hc) as [= Hid].
  cbn [snd]. rewrite <- Hid.
  destruct (truthy (cr_tokenId client)); unfold getClient; cbn;
    now apply findOne_deleteOne_other.
Qed.

(** X6. With distinct ids, a second [deprovisionClient(c)] returns [false]
    and changes nothing. *)
Theorem deprovisionClient_twice c (st : State K) :
  unique_ids st ->
  let st' := snd (deprovisionClient (Some c) st) in
  deprovisionClient (Some c) st' = (false, st').
Proof.
  intros Hu st'. pose proof (getClient_deprovisionClient c st Hu) as H.
  fold st' in H. unfold deprovisionClient at 1. now rewrite H.
Qed.

(** X7. [deprovisionClient] removes at most the token record named by the
    client's [tokenId]: every stored token record with another id, such as
    one minted by [token.refresh], is still stored afterwards. *)
Theorem deprovisionClient_spares_other_tokens q (st : State K) r :
  In r (tokenRecords st) ->
  (forall client, getClient q st = Some client ->
                  cr_tokenId client <> Some (tr_id r)) ->
  In r (tokenRecords (snd (deprovisionClient q st))).
Proof.
  intros Hin Hne. unfold deprovisionClient.
  destruct (getClient q st) as [client|] eqn:Hc; [|exact Hin].
  specialize (Hne client eq_refl). cbn [snd].
  destruct (truthy (cr_tokenId client)) eqn:Ht; cbn [tokenRecords set_tokens set_clients];
    [|exact Hin].
  destruct (cr_tokenId client) as [tid|]; [|discriminate Ht].
  clear Ht Hc. induction (tokenRecords st) as [|x l IH]; [destruct Hin|].
  cbn [deleteOne]. destruct (matches tr_id (Some tid) x) eqn:E.
  - destruct Hin as [->|Hin]; [|exact Hin].
    apply matches_Some in E. congruence.
  - destruct Hin as [->|Hin]; [now left|]. right. auto.
Qed.

(** X8. Whether [verifyToken] reports success does not depend on the client
    records: it is the generator's verdict, on any registry contents; and
    [verifyToken] changes no client record. *)
Theorem verifyToken_ignores_registry tok cs (st : State K) :
  ((exists c, fst (verifyToken tokens tok (set_clients cs st)) = success_ c) <->
   (exists c, fst (verifyToken tokens tok st) = success_ c)) /\
  ((exists c, fst (verifyToken tokens tok st) = success_ c) <->
   success (fst (check tokens tok st)) = true) /\
  clientRecords (snd (verifyToken tokens tok st)) = clientRecords st.
Proof.
  assert (Hv : forall st0 : State K,
             (exists c, fst (verifyToken tokens tok st0) = success_ c) <->
             success (fst (verifyToken_ tokens tok (now st0) (keys st0, tokenRecords st0)))
               = true).
  { intros st0. unfold verifyToken. rewrite check_eq. cbv zeta. cbn [fst snd].
    destruct (success (fst (verifyToken_ tokens tok (now st0) (keys st0, tokenRecords st0))));
      cbn [fst]; split.
    - reflexivity.
    - eauto.
    - intros (c & H). discriminate H.
    - discriminate. }
  split; [|split].
  - rewrite !Hv. reflexivity.
  - rewrite Hv, check_eq. reflexivity.
  - unfold verifyToken. rewrite check_eq. cbv zeta. cbn [fst snd].
    destruct (success (fst (verifyToken_ tokens tok (now st) (keys st, tokenRecords st))));
      reflexivity.
Qed.

(** X9. A deprovision request that names a client gets exactly one response:
    200 when a record was removed, 204 when there was none; never 400. *)
Theorem ep_deprovisionClient_with_id c b a (st : State K) :
  truthy_str c = true ->
  let h := ep_deprovisionClient (mkRequest (Some (mkParams (Some c))) b a) st in
  calls h = (match getClient (Some c) st with
             | Some _ => [res_status 200; res_end]
             | None => [res_status 204; res_end]
             end) /\
  rejected h = None /\
  after h = snd (deprovisionClient (Some c) st).
Proof.
  intros Hc. cbv zeta. unfold ep_deprovisionClient.
  cbn [params clientId truthy]. rewrite Hc. cbn [negb].
  unfold deprovisionClient.
  destruct (getClient (Some c) st); cbn; auto.
Qed.

(** X10. A deprovision request without [req.params] gets the 400 response;
    the handler then fails with a [TypeError] and the registry is as
    before. *)
Theorem ep_deprovisionClient_without_params b a (st : State K) :
  let h := ep_deprovisionClient (mkRequest None b a) st in
  calls h = [res_status 400; res_send (text "No client ID provided.")] /\
  rejected h = Some TypeError /\
  after h = st.
Proof. cbv zeta. cbn. auto. Qed.

(** X11. A client that was just provisioned is served with status 200 and
    exactly the record [getClient] finds for it, the one [provisionClient]
    left (its id, the minted [tokenId], [updated], [created], [state]); with
    distinct ids, a client that was just deprovisioned is answered with
    status 204 and no body.  The endpoint changes nothing. *)
Theorem ep_getClients_after_lifecycle c b a (st : State K) :
  truthy_str c = true ->
  unique_ids st ->
  let req := mkRequest (Some (mkParams (Some c))) b a in
  let st1 := snd (provisionClient tokens c st) in
  let st2 := snd (deprovisionClient (Some c) st) in
  (exists r,
     getClient (Some c) st1 = Some r /\
     r = provisioned_record c (getClient (Some c) st)
           (tr_id (record (fst (mint tokens c st)))) (now st) /\
     calls (ep_getClients req st1) = [res_status 200; res_send (json_client r)] /\
     rejected (ep_getClients req st1) = None /\
     after (ep_getClients req st1) = st1) /\
  calls (ep_getClients req st2) = [res_status 204; res_end] /\
  rejected (ep_getClients req st2) = None /\
  after (ep_getClients req st2) = st2.
Proof.
  intros Hc Hu. cbv zeta. unfold ep_getClients. cbn [params clientId truthy].
  rewrite Hc. split.
  - rewrite getClient_provisionClient, mint_eq. cbv zeta. cbn [fst].
    eexists. repeat split; reflexivity.
  - rewrite getClient_deprovisionClient by assumption. repeat split; reflexivity.
Qed.

(** X12. The provisioning endpoint: a request without a body, or without an
    authenticated caller, fails with a [TypeError] before anything is
    provisioned or sent; otherwise the response is 200 with the minted token,
    and the registry then holds a record for [body.id] that names it. *)
Theorem ep_provisionClient_spec req (st : State K) :
  let h := ep_provisionClient tokens req st in
  match body req, authenticated req with
  | Some details, Some _ =>
      let m := fst (mint tokens (b_id details) st) in
      calls h = [res_status 200; res_send (json_token (token m))] /\
      rejected h = None /\
      exists r, getClient (Some (b_id details)) (after h) = Some r /\
                cr_tokenId r = Some (tr_id (record m))
  | _, _ => calls h = [] /\ rejected h = Some TypeError /\ after h = st
  end.
Proof.
  cbv zeta. unfold ep_provisionClient.
  destruct (body req) as [d|]; [|cbn; auto].
  destruct (authenticated req); [|cbn; auto].
  destruct (getClient_provisionClient_record (b_id d) st) as (Ht & r & Hr & _ & Hid & _).
  destruct (provisionClient tokens (b_id d) st) as [t st'].
  cbn [fst snd calls rejected after] in *. subst t. eauto.
Qed.

(** X13. When the generator accepts the token it has just minted, the token
    returned by [provisionClient(c)] verifies with 'success' and resolves to
    the record of [c]. *)
Theorem provisionClient_then_verifyToken c (st : State K) :
  let p := provisionClient tokens c st in
  accepts tokens (fst p) c (now (snd p)) (keys (snd p), tokenRecords (snd p)) ->
  exists r,
    fst (verifyToken tokens (fst p) (snd p)) = success_ (Some r) /\
    cr_id r = c /\
    cr_tokenId r = Some (tr_id (record (fst (mint tokens c st)))).
Proof.
  intros p [Hs Hsub].
  pose proof (getClient_provisionClient tokens c st) as Hg. fold p in Hg.
  eexists. split; [|split].
  - unfold verifyToken. rewrite check_eq. cbv zeta. cbn [fst].
    rewrite Hs, Hsub. cbn [fst]. f_equal.
    match goal with |- getClient _ ?s = _ =>
      change (getClient (Some c) s) with (getClient (Some c) (snd p)) end.
    exact Hg.
  - destruct (getClient (Some c) st); reflexivity.
  - rewrite mint_eq. cbv zeta. cbn [fst].
    destruct (getClient (Some c) st); reflexivity.
Qed.

(** X14. [token.refresh] mints as [provisionClient] does: on the same state
    the token sent to the client is the token [provisionClient] would return,
    and the generator and its collection are left alike; the two differ in
    the client records only. *)
Theorem token_refresh_mints_like_provisionClient c (st : State K) :
  (exists e, fst (token_refresh tokens c st) =
             [client_token_issue (fst (provisionClient tokens c st)) e]) /\
  tokenRecords (snd (token_refresh tokens c st)) =
    tokenRecords (snd (provisionClient tokens c st)) /\
  keys (snd (token_refresh tokens c st)) = keys (snd (provisionClient tokens c st)).
Proof.
  rewrite provisionClient_eq. unfold token_refresh. rewrite mint_eq.
  cbv zeta. cbn [fst snd tokenRecords keys]. eauto.
Qed.

End RegistryMore.

Lemma fresh_unique_ids : unique_ids RefTokens.provisioned.
Proof. unfold unique_ids. cbn. apply NoDup_singleton. Qed.

Lemma provisionClient_other_clients_witness :
  getClient (Some "agent-42")
    (snd (provisionClient RefTokens.generator "agent-7" RefTokens.provisioned)) =
  getClient (Some "agent-42") RefTokens.provisioned.
Proof.
  apply (provisionClient_other_clients RefTokens.generator "agent-7" "agent-42").
  discriminate.
Defined.

Lemma provisionClient_unique_ids_witness :
  unique_ids (snd (provisionClient RefTokens.generator "agent-7" RefTokens.provisioned)).
Proof.
  apply (provisionClient_unique_ids RefTokens.generator "agent-7" RefTokens.provisioned).
  apply fresh_unique_ids.
Defined.

Lemma deprovisionClient_then_getClient_witness :
  getClient (Some "agent-42")
    (snd (deprovisionClient (Some "agent-42") RefTokens.provisioned)) = None.
Proof.
  apply (deprovisionClient_then_getClient "agent-42" RefTokens.provisioned).
  apply fresh_unique_ids.
Defined.

Lemma deprovisionClient_other_clients_witness :
  getClient (Some "agent-42")
    (snd (deprovisionClient (Some "agent-7") RefTokens.provisioned)) =
  getClient (Some "agent-42") RefTokens.provisioned.
Proof.
  apply (deprovisionClient_other_clients "agent-7" "agent-42" RefTokens.provisioned).
  discriminate.
Defined.

Lemma deprovisionClient_twice_witness :
  deprovisionClient (Some "agent-42")
    (snd (deprovisionClient (Some "agent-42") RefTokens.provisioned)) =
  (false, snd (deprovisionClient (Some "agent-42") RefTokens.provisioned)).
Proof.
  apply (deprovisionClient_twice "agent-42" RefTokens.provisioned).
  apply fresh_unique_ids.
Defined.

Lemma deprovisionClient_spares_other_tokens_witness :
  In (mkTokenRecord "t'" "agent-42" 2592000000) (tokenRecords RefTokens.orphaned).
Proof.
  apply (deprovisionClient_spares_other_tokens (Some "agent-42") RefTokens.refreshed).
  - vm_compute. right. left. reflexivity.
  - intros client H. vm_compute in H. injection H as <-. discriminate.
Defined.

Lemma ep_deprovisionClient_with_id_witness :
  let h := ep_deprovisionClient
             (mkRequest (Some (mkParams (Some "agent-42"))) None None)
             RefTokens.provisioned in
  calls h = (match getClient (Some "agent-42") RefTokens.provisioned with
             | Some _ => [res_status 200; res_end]
             | None => [res_status 204; res_end]
             end) /\
  rejected h = None /\
  after h = snd (deprovisionClient (Some "agent-42") RefTokens.provisioned).
Proof.
  apply (ep_deprovisionClient_with_id "agent-42" None None RefTokens.provisioned).
  reflexivity.
Defined.

Lemma ep_getClients_after_lifecycle_witness :
  let req := mkRequest (Some (mkParams (Some "agent-42"))) None None in
  let st1 := snd (provisionClient RefTokens.generator "agent-42" RefTokens.provisioned) in
  let st2 := snd (deprovisionClient (Some "agent-42") RefTokens.provisioned) in
  (exists r,
     getClient (Some "agent-42") st1 = Some r /\
     r = provisioned_record "agent-42" (getClient (Some "agent-42") RefTokens.provisioned)
           (tr_id (record (fst (mint RefTokens.generator "agent-42"
                                  RefTokens.provisioned))))
           (now RefTokens.provisioned) /\
     calls (ep_getClients req st1) = [res_status 200; res_send (json_client r)] /\
     rejected (ep_getClients req st1) = None /\
     after (ep_getClients req st1) = st1) /\
  calls (ep_getClients req st2) = [res_status 204; res_end] /\
  rejected (ep_getClients req st2) = None /\
  after (ep_getClients req st2) = st2.
Proof.
  apply (ep_getClients_after_lifecycle RefTokens.generator "agent-42" None None
           RefTokens.provisioned).
  - reflexivity.
  - apply fresh_unique_ids.
Defined.

Lemma provisionClient_then_verifyToken_witness :
  exists r,
    fst (verifyToken RefTokens.generator
           (fst (provisionClient RefTokens.generator "agent-42" RefTokens.fresh))
           (snd (provisionClient RefTokens.generator "agent-42" RefTokens.fresh)))
      = success_ (Some r) /\
    cr_id r = "agent-42" /\
    cr_tokenId r =
      Some (tr_id (record (fst (mint RefTokens.generator "agent-42" RefTokens.fresh)))).
Proof.
  apply (provisionClient_then_verifyToken RefTokens.generator "agent-42" RefTokens.fresh).
  split; reflexivity.
Defined.

End ServerFacts.

(** * Properties of the agent side *)

Module AgentFacts.
Import Js Agent AgentPolicy.

(** ** Paths and files *)

Lemma append_cancel (d a b : string) : d ++ a = d ++ b -> a = b.
Proof.
  induction d as [|ch d IH]; cbn; [auto|].
  intros [= H]. auto.
Qed.

Lemma token_paths_differ (d : string) : d ++ "/token" <> d ++ "/token.expiration".
Proof. intros H. apply append_cancel in H. discriminate H. Qed.

Lemma existsSync_Some p (fs : gmap string string) x :
  fs !! p = Some x -> existsSync (Some p) fs = true.
Proof. intros H. unfold existsSync. apply bool_decide_eq_true. eauto. Qed.

Lemma existsSync_None p (fs : gmap string string) :
  fs !! p = None -> existsSync (Some p) fs = false.
Proof.
  intros H. unfold existsSync. apply bool_decide_eq_false.
  rewrite H. intros [x Hx]. discriminate Hx.
Qed.

(** What [onDisconnect] does after [onConnect]: it hands the handle that
    [setInterval] returned to [clearImmediate], whatever that function does
    with it, and keeps the handle in the module variable. *)
Lemma onDisconnect_after_onConnect clearImmediate connection (v : Vars) (rt : Runtime) :
  let c := onConnect connection v rt in
  onDisconnect clearImmediate (fst c) (snd c) =
  (fst c, clearImmediate (Timeout (next rt)) (snd c)).
Proof. reflexivity. Qed.

(** C6 (evaluated): a cold start without [core.args], with a fallback token
    configured and no persisted token: [setup] throws a [TypeError], the
    fallback is not taken and nothing is persisted. *)
Theorem setup_cold_without_args_throws :
  setup (mkCore "/var/morrigan" None (mkSettings (Some "FALLBACK"))) loaded ∅ =
  (Some TypeError,
   mkVars (Some "/var/morrigan/token") (Some "/var/morrigan/token.expiration")
          None None None,
   ∅).
Proof. reflexivity. Qed.

(** C7: at a warm start (the token file exists and no forced override is
    requested), [setup] throws nothing, leaves every file as it was, and loads
    the persisted token, and the persisted expiry when its file exists,
    whatever token or token file the command line names. *)
Theorem setup_warm_start core (v : Vars) (fs : gmap string string) t :
  fs !! (stateDir core ++ "/token") = Some t ->
  (forall a, args core = Some a -> force a = false) ->
  setup core v fs =
  (None,
   mkVars (Some (stateDir core ++ "/token"))
          (Some (stateDir core ++ "/token.expiration"))
          (Some (Buf t))
          (match fs !! (stateDir core ++ "/token.expiration") with
           | Some e => Some (Buf e)
           | None => tokenExpires v
           end)
          (tokenRefreshInterval v),
   fs).
Proof.
  intros Ht Hf. unfold setup. cbv zeta. cbn [tokenPath].
  rewrite (existsSync_Some _ _ _ Ht). cbn [negb orb].
  assert (forced core = false) as ->.
  { unfold forced. destruct (args core) as [a|] eqn:Ha; [|reflexivity].
    now rewrite (Hf a eq_refl). }
  unfold loadToken. cbn [tokenPath readFileSync]. rewrite Ht.
  cbn [set_token tokenExpirationPath token tokenPath tokenExpires tokenRefreshInterval].
  destruct (fs !! (stateDir core ++ "/token.expiration")) as [e|] eqn:He.
  - rewrite (existsSync_Some _ _ _ He). cbn [readFileSync]. rewrite He. reflexivity.
  - rewrite (existsSync_None _ _ He). reflexivity.
Qed.

Lemma setup_warm_start_witness :
  setup (mkCore "/var/morrigan"
           (Some (mkArgs false (Some "FROM-COMMAND-LINE") (Some "/tmp/other")))
           (mkSettings None))
        loaded
        (<["/var/morrigan/token" := "PERSISTED"]> ∅) =
  (None,
   mkVars (Some "/var/morrigan/token") (Some "/var/morrigan/token.expiration")
          (Some (Buf "PERSISTED")) None None,
   <["/var/morrigan/token" := "PERSISTED"]> ∅).
Proof.
  etransitivity; [apply (setup_warm_start
           (mkCore "/var/morrigan"
              (Some (mkArgs false (Some "FROM-COMMAND-LINE") (Some "/tmp/other")))
              (mkSettings None))
           loaded (<["/var/morrigan/token" := "PERSISTED"]> ∅) "PERSISTED")|].
  - reflexivity.
  - intros a [= <-]. reflexivity.
  - reflexivity.
Defined.


(** ** Further properties of the agent *)

Lemma truthy_Some v : truthy v = true -> exists t, v = Some t.
Proof. destruct v; [eauto|discriminate]. Qed.

Lemma saveToken_paths (v : Vars) (fs : gmap string string) p ep t :
  tokenPath v = Some p -> tokenExpirationPath v = Some ep -> token v = Some t ->
  saveToken v fs = (None, persisted p ep (bytes t) (tokenExpires v) fs).
Proof.
  intros Hp He Ht. unfold saveToken, persisted, writeFileSync.
  rewrite Hp, He, Ht.
  destruct (tokenExpires v) as [d|]; [|reflexivity].
  destruct (truthy_data (Some d)); reflexivity.
Qed.

Lemma persisted_frame p ep t e (fs : gmap string string) path :
  path <> p -> path <> ep -> persisted p ep t e fs !! path = fs !! path.
Proof.
  intros H1 H2. unfold persisted.
  destruct e as [d|]; [destruct (truthy_data (Some d))|];
    rewrite ?lookup_insert_ne by congruence; reflexivity.
Qed.

Lemma setup_cold core a (v : Vars) (fs : gmap string string) :
  args core = Some a ->
  fs !! (stateDir core ++ "/token") = None \/ forced core = true ->
  let p := stateDir core ++ "/token" in
  let ep := stateDir core ++ "/token.expiration" in
  setup core v fs =
  match first_available (sources a (settings core) fs) with
  | Some t =>
      (None,
       mkVars (Some p) (Some ep) (Some (Str t)) (tokenExpires v)
              (tokenRefreshInterval v),
       persisted p ep t (tokenExpires v) fs)
  | None =>
      (Some (Failure "No token set provided."),
       mkVars (Some p) (Some ep) (token v) (tokenExpires v)
              (tokenRefreshInterval v),
       fs)
  end.
Proof.
  intros Ha Hcold. cbv zeta. unfold setup. cbv zeta. cbn [tokenPath].
  assert (negb (existsSync (Some (stateDir core ++ "/token")) fs) || forced core = true)
    as ->.
  { destruct Hcold as [Hn| ->]; [|apply orb_true_r].
    now rewrite (existsSync_None _ _ Hn). }
  unfold acquire, sources, supplied. rewrite Ha.
  destruct (truthy (a_token a)) eqn:T1.
  { destruct (truthy_Some _ T1) as [t ->]. cbn [default first_available].
    now rewrite (saveToken_paths _ _ (stateDir core ++ "/token")
                   (stateDir core ++ "/token.expiration") (Str t)). }
  destruct (truthy (tokenFile a)) eqn:T2; cbn [andb].
  { destruct (truthy_Some _ T2) as [f ->]. unfold existsSync, readFileSync.
    destruct (fs !! f) as [x|] eqn:Hf.
    - rewrite bool_decide_eq_true_2 by eauto. cbn [first_available].
      now rewrite (saveToken_paths _ _ (stateDir core ++ "/token")
                     (stateDir core ++ "/token.expiration") (Str x)).
    - rewrite bool_decide_eq_false_2 by (intros [? ?]; discriminate).
      cbn [first_available].
      destruct (truthy (s_token (settings core))) eqn:T3; [|reflexivity].
      destruct (truthy_Some _ T3) as [t Hs]. rewrite Hs. cbn [default].
      now rewrite (saveToken_paths _ _ (stateDir core ++ "/token")
                     (stateDir core ++ "/token.expiration") (Str t)). }
  cbn [first_available].
  destruct (truthy (s_token (settings core))) eqn:T3; [|reflexivity].
  destruct (truthy_Some _ T3) as [t Hs]. rewrite Hs. cbn [default].
  now rewrite (saveToken_paths _ _ (stateDir core ++ "/token")
                 (stateDir core ++ "/token.expiration") (Str t)).
Qed.

(** X15. A cold start with [core.args] present (no persisted token, or a
    forced override): the token is the first available source in priority
    order, it is held in memory and written to the token file; when no source
    is available [setup] throws 'No token set provided.' and writes
    nothing. *)
Theorem setup_cold_priority core a (v : Vars) (fs : gmap string string) :
  args core = Some a ->
  fs !! (stateDir core ++ "/token") = None \/ forced core = true ->
  let p := stateDir core ++ "/token" in
  let ep := stateDir core ++ "/token.expiration" in
  setup core v fs =
  match first_available (sources a (settings core) fs) with
  | Some t =>
      (None,
       mkVars (Some p) (Some ep) (Some (Str t)) (tokenExpires v)
              (tokenRefreshInterval v),
       persisted p ep t (tokenExpires v) fs)
  | None =>
      (Some (Failure "No token set provided."),
       mkVars (Some p) (Some ep) (token v) (tokenExpires v)
              (tokenRefreshInterval v),
       fs)
  end.
Proof.
  intros Ha Hcold. cbv zeta. unfold setup. cbv zeta. cbn [tokenPath].
  assert (negb (existsSync (Some (stateDir core ++ "/token")) fs) || forced core = true)
    as ->.
  { destruct Hcold as [Hn| ->]; [|apply orb_true_r].
    now rewrite (existsSync_None _ _ Hn). }
  unfold acquire, sources, supplied. rewrite Ha.
  destruct (truthy (a_token a)) eqn:T1.
  { destruct (truthy_Some _ T1) as [t ->]. cbn [default first_available].
    now rewrite (saveToken_paths _ _ (stateDir core ++ "/token")
                   (stateDir core ++ "/token.expiration") (Str t)). }
  destruct (truthy (tokenFile a)) eqn:T2; cbn [andb].
  { destruct (truthy_Some _ T2) as [f ->]. unfold existsSync, readFileSync.
    destruct (fs !! f) as [x|] eqn:Hf.
    - rewrite bool_decide_eq_true_2 by eauto. cbn [first_available].
      now rewrite (saveToken_paths _ _ (stateDir core ++ "/token")
                     (stateDir core ++ "/token.expiration") (Str x)).
    - rewrite bool_decide_eq_false_2 by (intros [? ?]; discriminate).
      cbn [first_available].
      destruct (truthy (s_token (settings core))) eqn:T3; [|reflexivity].
      destruct (truthy_Some _ T3) as [t Hs]. rewrite Hs. cbn [default].
      now rewrite (saveToken_paths _ _ (stateDir core ++ "/token")
                     (stateDir core ++ "/token.expiration") (Str t)). }
  cbn [first_available].
  destruct (truthy (s_token (settings core))) eqn:T3; [|reflexivity].
  destruct (truthy_Some _ T3) as [t Hs]. rewrite Hs. cbn [default].
  now rewrite (saveToken_paths _ _ (stateDir core ++ "/token")
                 (stateDir core ++ "/token.expiration") (Str t)).
Qed.

Lemma setup_cold_priority_witness :
  setup (mkCore "/var/morrigan"
           (Some (mkArgs false None (Some "/tmp/token.txt")))
           (mkSettings (Some "FALLBACK")))
        loaded (<["/tmp/token.txt" := "FROM-FILE"]> ∅) =
  (None,
   mkVars (Some "/var/morrigan/token") (Some "/var/morrigan/token.expiration")
          (Some (Str "FROM-FILE")) None None,
   <["/var/morrigan/token" := "FROM-FILE"]> (<["/tmp/token.txt" := "FROM-FILE"]> ∅)).
Proof.
  etransitivity;
    [apply (setup_cold_priority
              (mkCore "/var/morrigan"
                 (Some (mkArgs false None (Some "/tmp/token.txt")))
                 (mkSettings (Some "FALLBACK")))
              (mkArgs false None (Some "/tmp/token.txt"))
              loaded (<["/tmp/token.txt" := "FROM-FILE"]> ∅))|].
  - reflexivity.
  - left. reflexivity.
  - reflexivity.
Defined.

(** X16. [setup] writes no file other than the token file and the expiry
    file of the state directory. *)
Theorem setup_writes_only_token_files core (v : Vars) (fs : gmap string string) path :
  path <> stateDir core ++ "/token" ->
  path <> stateDir core ++ "/token.expiration" ->
  snd (setup core v fs) !! path = fs !! path.
Proof.
  intros H1 H2. unfold setup. cbv zeta. cbn [tokenPath].
  destruct (negb (existsSync (Some (stateDir core ++ "/token")) fs) || forced core).
  - destruct (acquire core fs) as [t|e]; [|reflexivity].
    rewrite (saveToken_paths _ _ (stateDir core ++ "/token")
               (stateDir core ++ "/token.expiration") (Str t)) by reflexivity.
    cbn [snd]. now apply persisted_frame.
  - now destruct (loadToken _ fs).
Qed.

Lemma setup_writes_only_token_files_witness :
  snd (setup (mkCore "/var/morrigan" (Some (mkArgs true (Some "NEW") None))
                (mkSettings None))
             loaded (<["/etc/passwd" := "root"]> ∅)) !! "/etc/passwd" =
  (<["/etc/passwd" := "root"]> ∅ : gmap string string) !! "/etc/passwd".
Proof.
  apply (setup_writes_only_token_files
           (mkCore "/var/morrigan" (Some (mkArgs true (Some "NEW") None))
              (mkSettings None))
           loaded (<["/etc/passwd" := "root"]> ∅) "/etc/passwd");
    discriminate.
Defined.

Lemma loadToken_paths (v : Vars) (fs : gmap string string) p ep :
  tokenPath v = Some p -> tokenExpirationPath v = Some ep ->
  loadToken v fs =
  match fs !! p with
  | None => (false, v)
  | Some t =>
      (true,
       mkVars (Some p) (Some ep) (Some (Buf t))
              (match fs !! ep with
               | Some e => Some (Buf e)
               | None => tokenExpires v
               end)
              (tokenRefreshInterval v))
  end.
Proof.
  intros Hp He. unfold loadToken. rewrite Hp. cbn [readFileSync].
  destruct (fs !! p) as [t|]; [|reflexivity].
  cbn [set_token tokenExpirationPath]. rewrite He. cbn [readFileSync].
  destruct (fs !! ep) as [e|] eqn:Hep.
  - rewrite (existsSync_Some _ _ _ Hep).
    unfold set_tokenExpires. cbn. now rewrite Hp, He.
  - rewrite (existsSync_None _ _ Hep). unfold set_token. cbn.
    now rewrite ?Hp, ?He.
Qed.

(** X17. [loadToken] with both paths set: a missing token file gives [false]
    and changes no variable; otherwise it gives [true], the token is the
    content of the token file, and the expiry is the content of the expiry
    file when that file exists and is left as it was in memory when not. *)
Theorem loadToken_spec (v : Vars) (fs : gmap string string) p ep :
  tokenPath v = Some p -> tokenExpirationPath v = Some ep ->
  loadToken v fs =
  match fs !! p with
  | None => (false, v)
  | Some t =>
      (true,
       mkVars (Some p) (Some ep) (Some (Buf t))
              (match fs !! ep with
               | Some e => Some (Buf e)
               | None => tokenExpires v
               end)
              (tokenRefreshInterval v))
  end.
Proof.
  intros Hp He. unfold loadToken. rewrite Hp. cbn [readFileSync].
  destruct (fs !! p) as [t|]; [|reflexivity].
  cbn [set_token tokenExpirationPath]. rewrite He. cbn [readFileSync].
  destruct (fs !! ep) as [e|] eqn:Hep.
  - rewrite (existsSync_Some _ _ _ Hep).
    unfold set_tokenExpires. cbn. now rewrite Hp, He.
  - rewrite (existsSync_None _ _ Hep). unfold set_token. cbn.
    now rewrite ?Hp, ?He.
Qed.

Lemma loadToken_spec_witness :
  loadToken (mkVars (Some "/s/token") (Some "/s/token.expiration") None
                    (Some (Str "2030-01-01")) None)
            (<["/s/token" := "T"]> ∅) =
  (true, mkVars (Some "/s/token") (Some "/s/token.expiration") (Some (Buf "T"))
                (Some (Str "2030-01-01")) None).
Proof.
  etransitivity;
    [apply (loadToken_spec
              (mkVars (Some "/s/token") (Some "/s/token.expiration") None
                      (Some (Str "2030-01-01")) None)
              (<["/s/token" := "T"]> ∅) "/s/token" "/s/token.expiration")|];
    reflexivity.
Defined.

(** X18. Round trip: what [saveToken] persists, [loadToken] reads back: the
    token, and the expiry when the one in memory is truthy. *)
Theorem saveToken_loadToken_roundtrip (v : Vars) (fs : gmap string string) p ep t e :
  tokenPath v = Some p -> tokenExpirationPath v = Some ep -> p <> ep ->
  token v = Some t -> tokenExpires v = Some e -> truthy_data (Some e) = true ->
  fst (saveToken v fs) = None /\
  loadToken v (snd (saveToken v fs)) =
    (true, mkVars (Some p) (Some ep) (Some (Buf (bytes t))) (Some (Buf (bytes e)))
                  (tokenRefreshInterval v)).
Proof.
  intros Hp Hep Hne Ht He Htr.
  rewrite (saveToken_paths v fs p ep t) by assumption.
  cbn [fst snd]. split; [reflexivity|].
  rewrite (loadToken_paths v _ p ep) by assumption.
  unfold persisted. rewrite He, Htr.
  rewrite lookup_insert_ne by congruence.
  rewrite !lookup_insert_eq. reflexivity.
Qed.

Lemma saveToken_loadToken_roundtrip_witness :
  fst (saveToken (mkVars (Some "/s/token") (Some "/s/token.expiration")
                         (Some (Str "T")) (Some (Str "2030-01-01")) None) ∅) = None /\
  loadToken (mkVars (Some "/s/token") (Some "/s/token.expiration")
                    (Some (Str "T")) (Some (Str "2030-01-01")) None)
            (snd (saveToken (mkVars (Some "/s/token") (Some "/s/token.expiration")
                                    (Some (Str "T")) (Some (Str "2030-01-01")) None) ∅)) =
    (true, mkVars (Some "/s/token") (Some "/s/token.expiration")
                  (Some (Buf "T")) (Some (Buf "2030-01-01")) None).
Proof.
  apply (saveToken_loadToken_roundtrip
           (mkVars (Some "/s/token") (Some "/s/token.expiration")
                   (Some (Str "T")) (Some (Str "2030-01-01")) None)
           ∅ "/s/token" "/s/token.expiration" (Str "T") (Str "2030-01-01"));
    try reflexivity.
  discriminate.
Defined.


Lemma setup_warm core (v : Vars) (fs : gmap string string) t :
  fs !! (stateDir core ++ "/token") = Some t -> forced core = false ->
  setup core v fs =
  (None,
   mkVars (Some (stateDir core ++ "/token"))
          (Some (stateDir core ++ "/token.expiration"))
          (Some (Buf t))
          (match fs !! (stateDir core ++ "/token.expiration") with
           | Some e => Some (Buf e)
           | None => tokenExpires v
           end)
          (tokenRefreshInterval v),
   fs).
Proof.
  intros Ht Hf. unfold setup. cbv zeta. cbn [tokenPath].
  rewrite (existsSync_Some _ _ _ Ht), Hf. cbn [negb orb].
  rewrite (loadToken_paths _ fs (stateDir core ++ "/token")
             (stateDir core ++ "/token.expiration")) by reflexivity.
  rewrite Ht. reflexivity.
Qed.

(** X19. A token issued by the server survives a restart: after
    [token.issue] with a token and a non-empty expiry, the token is the one
    [getToken] returns, and a later warm [setup] of a new process on the same
    state directory loads exactly that token and that expiry. *)
Theorem token_issue_then_restart core (v : Vars) (fs : gmap string string) t e :
  tokenPath v = Some (stateDir core ++ "/token") ->
  tokenExpirationPath v = Some (stateDir core ++ "/token.expiration") ->
  truthy_str e = true ->
  forced core = false ->
  let r := token_issue (Some t) (Some e) v fs in
  fst (fst r) = None /\
  getToken (snd (fst r)) = Some (Str t) /\
  setup core loaded (snd r) =
    (None,
     mkVars (Some (stateDir core ++ "/token"))
            (Some (stateDir core ++ "/token.expiration"))
            (Some (Buf t)) (Some (Buf e)) None,
     snd r).
Proof.
  intros Hp Hep He Hf. cbv zeta. unfold token_issue. cbv zeta.
  rewrite (saveToken_paths _ fs (stateDir core ++ "/token")
             (stateDir core ++ "/token.expiration") (Str t))
    by (cbn; first [assumption | reflexivity]).
  cbn [fst snd getToken set_tokenExpires set_token token tokenExpires fmap option_fmap
       option_map persisted truthy_data bytes].
  rewrite He. split; [reflexivity|]. split; [reflexivity|].
  rewrite (setup_warm core loaded _ t).
  - rewrite lookup_insert_eq. reflexivity.
  - rewrite lookup_insert_ne by (intros H; symmetry in H; revert H; apply token_paths_differ).
    apply lookup_insert_eq.
  - assumption.
Qed.

Lemma token_issue_then_restart_witness :
  let core := mkCore "/var/morrigan" None (mkSettings None) in
  let v := mkVars (Some "/var/morrigan/token") (Some "/var/morrigan/token.expiration")
                  (Some (Buf "OLD")) None (Some (Timeout 0)) in
  let r := token_issue (Some "NEW") (Some "2030-01-01T00:00:00.000Z") v
                       (<["/var/morrigan/token" := "OLD"]> ∅) in
  fst (fst r) = None /\
  getToken (snd (fst r)) = Some (Str "NEW") /\
  setup core loaded (snd r) =
    (None,
     mkVars (Some (stateDir core ++ "/token"))
            (Some (stateDir core ++ "/token.expiration"))
            (Some (Buf "NEW")) (Some (Buf "2030-01-01T00:00:00.000Z")) None,
     snd r).
Proof.
  apply (token_issue_then_restart
           (mkCore "/var/morrigan" None (mkSettings None))
           (mkVars (Some "/var/morrigan/token") (Some "/var/morrigan/token.expiration")
                   (Some (Buf "OLD")) None (Some (Timeout 0)))
           (<["/var/morrigan/token" := "OLD"]> ∅)
           "NEW" "2030-01-01T00:00:00.000Z"); reflexivity.
Defined.

(** X20. A [token.issue] message without an expiry writes the new token and
    leaves the expiry file as it was: an expiry persisted earlier stays on
    disk beside the new token, while the expiry in memory is cleared. *)
Theorem token_issue_without_expiry (v : Vars) (fs : gmap string string) p ep t :
  tokenPath v = Some p -> tokenExpirationPath v = Some ep -> p <> ep ->
  let r := token_issue (Some t) None v fs in
  fst (fst r) = None /\
  snd r !! p = Some t /\
  snd r !! ep = fs !! ep /\
  tokenExpires (snd (fst r)) = None.
Proof.
  intros Hp Hep Hne. cbv zeta. unfold token_issue. cbv zeta.
  rewrite (saveToken_paths _ fs p ep (Str t))
    by (cbn; first [assumption | reflexivity]).
  cbn [fst snd set_tokenExpires set_token token tokenExpires fmap option_fmap
       option_map persisted bytes].
  split; [reflexivity|]. split; [apply lookup_insert_eq|].
  split; [|reflexivity]. apply lookup_insert_ne. congruence.
Qed.

Lemma token_issue_without_expiry_witness :
  let v := mkVars (Some "/s/token") (Some "/s/token.expiration")
                  (Some (Buf "OLD")) (Some (Buf "2020-01-01")) None in
  let fs : gmap string string :=
    <["/s/token.expiration" := "2020-01-01"]> (<["/s/token" := "OLD"]> ∅) in
  let r := token_issue (Some "NEW") None v fs in
  fst (fst r) = None /\
  snd r !! "/s/token" = Some "NEW" /\
  snd r !! "/s/token.expiration" = fs !! "/s/token.expiration" /\
  tokenExpires (snd (fst r)) = None.
Proof.
  apply (token_issue_without_expiry
           (mkVars (Some "/s/token") (Some "/s/token.expiration")
                   (Some (Buf "OLD")) (Some (Buf "2020-01-01")) None)
           (<["/s/token.expiration" := "2020-01-01"]> (<["/s/token" := "OLD"]> ∅))
           "/s/token" "/s/token.expiration" "NEW");
    try reflexivity.
  discriminate.
Defined.

(** X21. A [token.issue] message without a token: the handler throws a
    [TypeError] and writes nothing, and the token held in memory is lost
    ([getToken] returns nothing afterwards). *)
Theorem token_issue_without_token e (v : Vars) (fs : gmap string string) :
  let r := token_issue None e v fs in
  fst (fst r) = Some TypeError /\
  snd r = fs /\
  getToken (snd (fst r)) = None.
Proof.
  cbv zeta. unfold token_issue, saveToken, writeFileSync. cbv zeta.
  cbn [set_tokenExpires set_token token tokenPath fmap option_fmap option_map].
  destruct (tokenPath v); cbn; auto.
Qed.

(** X22. A second [onConnect] with no cancellation in between arms a second
    interval: the first stays live, its handle is overwritten in the module
    variable, and each call has sent one refresh request. *)
Theorem onConnect_twice_two_intervals a b (v : Vars) (rt : Runtime) :
  let c1 := onConnect a v rt in
  let c2 := onConnect b (fst c1) (snd c1) in
  intervals (snd c2) !! next rt = Some (a, refreshPeriod) /\
  intervals (snd c2) !! S (next rt) = Some (b, refreshPeriod) /\
  tokenRefreshInterval (fst c2) = Some (Timeout (S (next rt))) /\
  sent (snd c2) =
    (sent rt ++ [(a, client_token_refresh); (b, client_token_refresh)])%list.
Proof.
  cbv zeta. unfold onConnect, setInterval, send.
  cbn [fst snd intervals next sent tokenRefreshInterval].
  split; [|split; [|split]].
  - rewrite lookup_insert_ne by lia. apply lookup_insert_eq.
  - apply lookup_insert_eq.
  - reflexivity.
  - now rewrite <- app_assoc.
Qed.

(** X23. A forced override with a raw token replaces the persisted token and
    leaves the expiry file as it was (no expiry is held in memory at
    start-up): the expiry cached for the replaced token stays on disk. *)
Theorem setup_forced_override core a (v : Vars) (fs : gmap string string) t :
  args core = Some a -> force a = true -> a_token a = Some t ->
  truthy_str t = true -> tokenExpires v = None ->
  fst (fst (setup core v fs)) = None /\
  getToken (snd (fst (setup core v fs))) = Some (Str t) /\
  snd (setup core v fs) !! (stateDir core ++ "/token") = Some t /\
  snd (setup core v fs) !! (stateDir core ++ "/token.expiration") =
    fs !! (stateDir core ++ "/token.expiration").
Proof.
  intros Ha Hf Ht Htr He.
  assert (forced core = true) as Hforced.
  { unfold forced. rewrite Ha, Hf, Ht. cbn [truthy]. now rewrite Htr. }
  rewrite (setup_cold core a v fs Ha (or_intror Hforced)).
  unfold sources, supplied. rewrite Ht. cbn [truthy]. rewrite Htr.
  cbn [first_available fst snd getToken token]. rewrite He. cbn [persisted].
  split; [reflexivity|]. split; [reflexivity|].
  split; [apply lookup_insert_eq|].
  apply lookup_insert_ne. apply token_paths_differ.
Qed.

Lemma setup_forced_override_witness :
  let core := mkCore "/var/morrigan" (Some (mkArgs true (Some "NEW") None))
                     (mkSettings None) in
  let fs : gmap string string :=
    <["/var/morrigan/token.expiration" := "2020-01-01"]>
      (<["/var/morrigan/token" := "OLD"]> ∅) in
  fst (fst (setup core loaded fs)) = None /\
  getToken (snd (fst (setup core loaded fs))) = Some (Str "NEW") /\
  snd (setup core loaded fs) !! (stateDir core ++ "/token") = Some "NEW" /\
  snd (setup core loaded fs) !! (stateDir core ++ "/token.expiration") =
    fs !! (stateDir core ++ "/token.expiration").
Proof.
  apply (setup_forced_override
           (mkCore "/var/morrigan" (Some (mkArgs true (Some "NEW") None))
              (mkSettings None))
           (mkArgs true (Some "NEW") None) loaded
           (<["/var/morrigan/token.expiration" := "2020-01-01"]>
              (<["/var/morrigan/token" := "OLD"]> ∅))
           "NEW"); reflexivity.
Defined.

End AgentFacts.
